(** * fp-result: the [Result] container of [src/result.ts], embedded in Rocq

    The TypeScript class [Result<T, E extends ResultErr>] and its two private
    subclasses [Result.Ok] and [Result.Err] are embedded over an explicit
    object store: a [Result] is a reference to an immutable-by-convention
    instance holding the three private fields [_value], [_isOk], [_isErr],
    and the class it was constructed by (which decides dynamic dispatch of
    the abstract methods).  Callbacks are host functions that may change
    the store and may raise; each call a method makes is recorded in a
    trace, which callbacks themselves cannot write to. *)

From Stdlib Require Import ZArith String List Bool Lia DecimalString.
From stdpp Require Import base list.

Import ListNotations.
Local Open Scope string_scope.
Local Open Scope list_scope.

(** ** Host values, objects and the store *)

Module Host.

(** References are indices into the store. *)
Abbreviation loc := nat (only parsing).

(** JavaScript values that reach a [Result].  [VNum n] is the number with
    the integer value [n], for [n] a safe integer (below 2^53 in absolute
    value); fractions, NaN and the infinities are left out.  A [VRef] is an
    object reference, compared by identity. *)
Inductive jsval : Type :=
| VUndefined
| VNull
| VBool (b : bool)
| VNum (n : Z)
| VStr (s : string)
| VSymbol (description : string)
| VRef (l : loc).

(** How an evaluation ends: normally, by [throw v], or by a [TypeError]
    raised by the host itself. *)
Inductive completion (A : Type) : Type :=
| Normal (a : A)
| Throw (v : jsval)
| TypeError (msg : string).
Arguments Normal {A} a.
Arguments Throw {A} v.
Arguments TypeError {A} msg.

(** The two private classes [Result.Ok] and [Result.Err]. *)
Inductive class : Type := ClsOk | ClsErr.

(** The fields set by the protected constructor of [Result]. *)
Record instance : Type := Instance {
  cls : class;
  _value : jsval;
  _isOk : bool;
  _isErr : bool
}.

Inductive object : Type :=
| OResult (i : instance)
    (* an instance of Result.Ok or Result.Err *)
| OResultErr (message _tag : string)
    (* an instance of a concrete subclass of ResultErr *)
| ORecord (value : jsval) (isOk isErr : jsval)
    (* the object literal { value, isOk, isErr } built by toJSON *)
| OForeign (message : completion jsval)
    (rendering : option (completion string))
    (* any other object, given by what the code can ask of it: how reading
       its property "message" ends, and how its own toString ends when the
       host converts it to a string: with a string, by raising, or never
       (None) *).

(** Objects are allocated at the end of the store and never moved. *)
Abbreviation store := (list object) (only parsing).

Definition raises {A} (c : completion A) : bool :=
  match c with Normal _ => false | _ => true end.

(** A call made by a method of [Result] to a function it was given. *)
Inductive event : Type := Invoke (f : nat) (arg : jsval).

Record run (A : Type) : Type := Run {
  trace : list event;
  store_after : store;
  result : completion A
}.
Arguments Run {A} trace store_after result.
Arguments trace {A} r.
Arguments store_after {A} r.
Arguments result {A} r.

Definition M (A : Type) : Type := store -> run A.

Definition ret {A} (a : A) : M A := fun s => Run [] s (Normal a).

(** Sequencing: a raised exception skips the continuation; traces are
    concatenated in program order. *)
Definition bind {A B} (m : M A) (k : A -> M B) : M B := fun s =>
  match m s with
  | Run t s1 (Normal a) =>
      match k a s1 with
      | Run t' s2 c => Run (t ++ t') s2 c
      end
  | Run t s1 (Throw v) => Run t s1 (Throw v)
  | Run t s1 (TypeError msg) => Run t s1 (TypeError msg)
  end.

Definition throw {A} (v : jsval) : M A := fun s => Run [] s (Throw v).

(** [new]: the fresh reference is the next free index. *)
Definition alloc (o : object) : M loc :=
  fun s => Run [] (s ++ [o]) (Normal (length s)).

(** A function value: its identity and what a call does.  The body may
    change the store and may raise. *)
Record jsfun : Type := JsFun {
  fid : nat;
  body : jsval -> store -> store * completion jsval
}.

Definition invoke (f : jsfun) (arg : jsval) : M jsval := fun s =>
  Run [Invoke (fid f) arg] (fst (body f arg s)) (snd (body f arg s)).

(** Number of calls of the function [f] recorded in a trace. *)
Fixpoint invocations (f : nat) (t : list event) : nat :=
  match t with
  | [] => 0
  | Invoke g _ :: t' =>
      ((if Nat.eqb f g then 1 else 0) + invocations f t')
  end.

(** Number-to-string conversion of a safe integer: its decimal digits. *)
Definition Number_toString (n : Z) : string :=
  NilZero.string_of_int (Z.to_int n).

(** [Error.prototype.toString] for an error whose [name] is the inherited
    "Error". *)
Definition Error_toString (message : string) : string :=
  match message with
  | EmptyString => "Error"
  | _ => "Error: " ++ message
  end.

(** Property read [v.message]. *)
Definition get_message (s : store) (v : jsval) : completion jsval :=
  match v with
  | VUndefined | VNull =>
      TypeError "Cannot read properties of undefined or null"
  | VRef l =>
      match s !! l with
      | Some (OResultErr message _) => Normal (VStr message)
      | Some (OForeign message _) => message
      | Some _ => Normal VUndefined
      | None => TypeError "dangling reference"
      end
  | _ => Normal VUndefined
  end.

End Host.
Export Host.

#[global] Instance M_ret : MRet M := @ret.
#[global] Instance M_bind : MBind M := fun A B k m => bind m k.

(** ** The class [Result] and its subclasses [Ok] and [Err] *)

Module Result.

(** [protected constructor(value, isOk, isErr)], run by [new] of the
    subclass [c]. *)
Definition constructor (c : class) (value : jsval) (isOk isErr : bool)
  : M loc :=
  alloc (OResult (Instance c value isOk isErr)).

(** The private fields of the receiver. *)
Definition fields (this : loc) : M instance := fun s =>
  match s !! this with
  | Some (OResult i) => Run [] s (Normal i)
  | _ => Run [] s (TypeError "receiver is not a Result")
  end.

(** [get isOk()], [get isErr()], [get value()]. *)
Definition isOk (this : loc) : M bool :=
  i ← fields this; mret (_isOk i).

Definition isErr (this : loc) : M bool :=
  i ← fields this; mret (_isErr i).

Definition value (this : loc) : M jsval :=
  i ← fields this; mret (_value i).

(** [return this.isOk ? this.value as T : defaultValue] *)
Definition getOrDefault (this : loc) (defaultValue : jsval) : M jsval :=
  b ← isOk this;
  if b : bool then value this else mret defaultValue.

(** [return this.isOk ? this.value as T : onErr(this.value as E)] *)
Definition getOrElse (this : loc) (onErr : jsfun) : M jsval :=
  b ← isOk this;
  if b : bool then value this
  else (e ← value this; invoke onErr e).

(** [return { value: this._value, isOk: this.isOk, isErr: this.isErr }] *)
Definition toJSON (this : loc) : M loc :=
  i ← fields this;
  b ← isOk this;
  b' ← isErr this;
  alloc (ORecord (_value i) (VBool b) (VBool b')).

(** *** [class Ok<T> extends Result<T, never>] *)

Definition Ok_new (value : jsval) : M loc :=
  constructor ClsOk value true false.

(** [return new Result.Ok(fn(this.value))] *)
Definition Ok_map (this : loc) (fn : jsfun) : M loc :=
  v ← value this;
  u ← invoke fn v;
  Ok_new u.

(** [return ifOk(this.value)] *)
Definition Ok_fold (this : loc) (ifOk _ifErr : jsfun) : M jsval :=
  v ← value this;
  invoke ifOk v.

Definition Ok_getOrNull (this : loc) : M jsval :=
  i ← fields this; mret (_value i).

Definition Ok_errOrNull (this : loc) : M jsval := mret VNull.

Definition Ok_getOrThrow (this : loc) : M jsval :=
  i ← fields this; mret (_value i).

(** *** [class Err<E extends ResultErr> extends Result<never, E>] *)

Definition Err_new (value : jsval) : M loc :=
  constructor ClsErr value false true.

(** [return this as unknown as Result<U, E>] *)
Definition Err_map (this : loc) (fn : jsfun) : M loc := mret this.

(** [return ifErr(this.value)] *)
Definition Err_fold (this : loc) (_ifOk ifErr : jsfun) : M jsval :=
  e ← value this;
  invoke ifErr e.

Definition Err_getOrNull (this : loc) : M jsval := mret VNull.

Definition Err_errOrNull (this : loc) : M jsval :=
  i ← fields this; mret (_value i).

(** [throw this._value] *)
Definition Err_getOrThrow (this : loc) : M jsval :=
  i ← fields this; throw (_value i).

(** *** The abstract methods, dispatched on the class of the receiver *)

Definition dispatch {A} (this : loc) (ifOk ifErr : M A) : M A :=
  i ← fields this;
  match cls i with ClsOk => ifOk | ClsErr => ifErr end.

Definition map (this : loc) (fn : jsfun) : M loc :=
  dispatch this (Ok_map this fn) (Err_map this fn).

Definition fold (this : loc) (ifOk ifErr : jsfun) : M jsval :=
  dispatch this (Ok_fold this ifOk ifErr) (Err_fold this ifOk ifErr).

Definition getOrNull (this : loc) : M jsval :=
  dispatch this (Ok_getOrNull this) (Err_getOrNull this).

Definition errOrNull (this : loc) : M jsval :=
  dispatch this (Ok_errOrNull this) (Err_errOrNull this).

Definition getOrThrow (this : loc) : M jsval :=
  dispatch this (Ok_getOrThrow this) (Err_getOrThrow this).

(** *** The static factories *)

(** [return new this.Ok(value)] *)
Definition ok (value : jsval) : M loc := Ok_new value.

(** [return new this.Err(value)] *)
Definition err (value : jsval) : M loc := Err_new value.

(** *** [toString]

    The template literals convert their hole with the host's string
    conversion [conv], which for a reference calls the [toString] of the
    referenced object, possibly one of the two below again.  A foreign
    object's own [toString] is taken by how it ends; what it might write
    is left out, so the conversion only reads the store.  [None] is "has
    not returned": out of fuel, or a foreign conversion that never ends. *)

(** [return `Ok(${this._value})`] *)
Definition Ok_toString (conv : jsval -> option (completion string))
    (i : instance) : option (completion string) :=
  match conv (_value i) with
  | Some (Normal x) => Some (Normal ("Ok(" ++ x ++ ")")%string)
  | other => other
  end.

(** [return `Err(${this._value.message})`] *)
Definition Err_toString (conv : jsval -> option (completion string))
    (s : store) (i : instance) : option (completion string) :=
  match get_message s (_value i) with
  | Normal m =>
      match conv m with
      | Some (Normal x) => Some (Normal ("Err(" ++ x ++ ")")%string)
      | other => other
      end
  | Throw v => Some (Throw v)
  | TypeError msg => Some (TypeError msg)
  end.

Definition toString_of (conv : jsval -> option (completion string))
    (s : store) (i : instance) : option (completion string) :=
  match cls i with
  | ClsOk => Ok_toString conv i
  | ClsErr => Err_toString conv s i
  end.

(** The host's conversion of a value to a string. *)
Fixpoint ToString (fuel : nat) (s : store) (v : jsval)
  : option (completion string) :=
  match v with
  | VUndefined => Some (Normal "undefined")
  | VNull => Some (Normal "null")
  | VBool b => Some (Normal (if b then "true" else "false"))
  | VNum n => Some (Normal (Number_toString n))
  | VStr x => Some (Normal x)
  | VSymbol _ =>
      Some (TypeError "Cannot convert a Symbol value to a string")
  | VRef l =>
      match fuel with
      | O => None
      | S fuel' =>
          match s !! l with
          | Some (OResult i) => toString_of (ToString fuel' s) s i
          | Some (OResultErr message _) =>
              Some (Normal (Error_toString message))
          | Some (ORecord _ _ _) => Some (Normal "[object Object]")
          | Some (OForeign _ rendering) => rendering
          | None => Some (TypeError "dangling reference")
          end
      end
  end.

(** [r.toString()], with [fuel] bounding the nesting of the payload. *)
Definition toString (fuel : nat) (this : loc) (s : store)
  : option (completion jsval) :=
  match s !! this with
  | Some (OResult i) =>
      match toString_of (ToString fuel s) s i with
      | Some (Normal x) => Some (Normal (VStr x))
      | Some (Throw v) => Some (Throw v)
      | Some (TypeError msg) => Some (TypeError msg)
      | None => None
      end
  | _ => Some (TypeError "receiver is not a Result")
  end.

End Result.

(** ** The scenarios of [tests/result.test.ts] *)

Module Scenario.

(** [new MyError('failed')] *)
Definition MyError (message : string) : M loc :=
  alloc (OResultErr message "MyError").

Definition plus_one : jsfun :=
  JsFun 1 (fun v s =>
    (s, Normal (match v with VNum n => VNum (n + 1) | _ => VUndefined end))).

Definition times_two : jsfun :=
  JsFun 2 (fun v s =>
    (s, Normal (match v with VNum n => VNum (n * 2) | _ => VUndefined end))).

(** [_ => c] *)
Definition constant (id : nat) (c : jsval) : jsfun :=
  JsFun id (fun _ s => (s, Normal c)).

(** [e => e.message.length] *)
Definition message_length : jsfun :=
  JsFun 5 (fun v s =>
    (s, match get_message s v with
        | Normal (VStr m) => Normal (VNum (Z.of_nat (String.length m)))
        | Normal _ => TypeError "length of a non-string"
        | Throw x => Throw x
        | TypeError msg => TypeError msg
        end)).

(** [e => { throw e }] *)
Definition rethrow : jsfun := JsFun 6 (fun v s => (s, Throw v)).

(** [v => v] *)
Definition identity (id : nat) : jsfun :=
  JsFun id (fun v s => (s, Normal v)).

End Scenario.

(** ** Vocabulary of the statements *)

(** The instance built by [new Result.Ok(p)], respectively
    [new Result.Err(p)]. *)
Definition constructed (c : class) (p : jsval) : instance :=
  match c with
  | ClsOk => Instance ClsOk p true false
  | ClsErr => Instance ClsErr p false true
  end.

(** [r] refers, in [s], to a [Result] of variant [c] with payload [p]. *)
Definition instance_of (s : store) (r : loc) (c : class) (p : jsval) : Prop :=
  s !! r = Some (OResult (constructed c p)).

(** [e] refers to an object satisfying [ResultErr], with this message. *)
Definition is_ResultErr (s : store) (e : jsval) (message : string) : Prop :=
  exists l _tag, e = VRef l /\ s !! l = Some (OResultErr message _tag).

(** Every [Result] in the store came out of one of the two constructors. *)
Definition wf_store (s : store) : Prop :=
  forall l i, s !! l = Some (OResult i) -> i = constructed (cls i) (_value i).

(** A function that leaves every object already allocated as it is. *)
Definition preserving (f : jsfun) : Prop :=
  forall v s, s `prefix_of` fst (body f v s).

(** A computation that leaves every object already allocated as it is,
    whatever the store it starts from. *)
Definition frame {A} (m : M A) : Prop :=
  forall s, s `prefix_of` store_after (m s).

(** Every object of [s] is still there, as it was, in [s']. *)
Definition unchanged (s s' : store) : Prop :=
  forall l o, s !! l = Some o -> s' !! l = Some o.

(** The references held by the [Result]s of the store point to objects
    allocated before them. *)
Definition refs_before (n : nat) (o : object) : bool :=
  match o with
  | OResult i => match _value i with VRef l => Nat.ltb l n | _ => true end
  | _ => true
  end.

Fixpoint acyclic_from (n : nat) (s : store) : bool :=
  match s with
  | [] => true
  | o :: s' => refs_before n o && acyclic_from (S n) s'
  end.

Definition acyclic (s : store) : bool := acyclic_from 0 s.

(** The objects foreign to this code in [s] are tame: their own string
    conversion ends, and their "message" is not itself an object. *)
Definition tame_object (o : object) : bool :=
  match o with
  | OForeign message rendering =>
      match message with Normal (VRef _) => false | _ => true end
      && match rendering with Some _ => true | None => false end
  | _ => true
  end.

Definition tame (s : store) : bool := forallb tame_object s.

(** The function that picks the function [fold] is to call. *)
Definition chosen (c : class) (ifOk ifErr : jsfun) : jsfun :=
  match c with ClsOk => ifOk | ClsErr => ifErr end.

(** Whether [c] is the class [Result.Ok]. *)
Definition is_ok_class (c : class) : bool :=
  match c with ClsOk => true | ClsErr => false end.

(** Two runs that end the same way and leave the same store. *)
Definition agree {A} (a b : run A) : Prop :=
  result a = result b /\ store_after a = store_after b.

Definition completion_map {A B} (g : A -> B) (c : completion A)
  : completion B :=
  match c with
  | Normal a => Normal (g a)
  | Throw v => Throw v
  | TypeError msg => TypeError msg
  end.

(** *** Client programs and their vocabulary *)

(** [v => h v], for a function [h] without effects. *)
Definition pure_fn (id : nat) (h : jsval -> jsval) : jsfun :=
  JsFun id (fun v s => (s, Normal (h v))).

Definition pure_fns (hs : list (nat * (jsval -> jsval))) : list jsfun :=
  List.map (fun ih => pure_fn (fst ih) (snd ih)) hs.

(** [r.map(f1).map(f2)...map(fn)] *)
Fixpoint map_chain (r : loc) (fs : list jsfun) : M loc :=
  match fs with
  | [] => mret r
  | f :: fs' => r' ← Result.map r f; map_chain r' fs'
  end.

(** The calls a chain of effect-free functions receives, starting from the
    payload [p], and the payload it ends with. *)
Fixpoint chain_calls (p : jsval) (hs : list (nat * (jsval -> jsval)))
  : list event :=
  match hs with
  | [] => []
  | ih :: hs' => Invoke (fst ih) p :: chain_calls (snd ih p) hs'
  end.

Fixpoint chain_value (p : jsval) (hs : list (nat * (jsval -> jsval)))
  : jsval :=
  match hs with
  | [] => p
  | ih :: hs' => chain_value (snd ih p) hs'
  end.

(** A step of a client program: it builds an error object, or calls a
    factory, [toJSON], or [map] with an effect-free function. *)
Inductive step : Type :=
| NewError (message _tag : string)
| CallOk (v : jsval)
| CallErr (v : jsval)
| CallToJSON (r : loc)
| CallMap (r : loc) (id : nat) (h : jsval -> jsval).

Definition run_step (st : step) : M loc :=
  match st with
  | NewError message _tag => alloc (OResultErr message _tag)
  | CallOk v => Result.ok v
  | CallErr v => Result.err v
  | CallToJSON r => Result.toJSON r
  | CallMap r id h => Result.map r (pure_fn id h)
  end.

(** The store a program leaves; a step that raises leaves what it had
    built, and the program goes on (as under a [try]). *)
Fixpoint run_steps (sts : list step) (s : store) : store :=
  match sts with
  | [] => s
  | st :: sts' => run_steps sts' (store_after (run_step st s))
  end.

(** A computation that calls nothing and leaves the store as it is. *)
Definition read_only {A} (m : M A) : Prop :=
  forall s, trace (m s) = [] /\ store_after (m s) = s.

(** Running [m] twice in a row gives the same answer twice, and is not
    otherwise observable. *)
Definition idempotent_read {A} (m : M A) : Prop :=
  forall s,
    (a ← m; b ← m; mret (a, b)) s
    = Run [] s (completion_map (fun a => (a, a)) (result (m s))).


(** The rendering of an Ok around the rendering [v] of its payload. *)
Definition Ok_around (v : jsval) : jsval :=
  match v with VStr x => VStr ("Ok(" ++ x ++ ")") | _ => v end.

(** ** The scenarios, evaluated *)

Example test_ok_variant :
  let r := (okResult ← Result.ok (VNum 42);
            a ← Result.isOk okResult;
            b ← Result.isErr okResult;
            c ← Result.value okResult;
            d ← Result.getOrDefault okResult (VNum 0);
            e ← Result.getOrElse okResult (Scenario.constant 3 (VNum 0));
            f ← Result.getOrNull okResult;
            g ← Result.errOrNull okResult;
            h ← Result.getOrThrow okResult;
            mapped ← Result.map okResult Scenario.plus_one;
            i ← Result.value mapped;
            j ← Result.fold okResult Scenario.times_two
                  (Scenario.constant 4 (VNum (-1)));
            mret (a, b, c, d, e, f, g, h, i, j)) [] in
  result r = Normal (true, false, VNum 42, VNum 42, VNum 42, VNum 42,
                     VNull, VNum 42, VNum 43, VNum 84)
  /\ Result.toString 0 0 (store_after r) = Some (Normal (VStr "Ok(42)")).
Proof. vm_compute. split; reflexivity. Qed.

Example test_err_variant :
  let r := (errObj ← Scenario.MyError "failed";
            errResult ← Result.err (VRef errObj);
            a ← Result.isOk errResult;
            b ← Result.isErr errResult;
            c ← Result.value errResult;
            d ← Result.getOrDefault errResult (VNum 0);
            e ← Result.getOrElse errResult Scenario.message_length;
            f ← Result.getOrNull errResult;
            g ← Result.errOrNull errResult;
            mapped ← Result.map errResult (Scenario.constant 3 (VNum 123));
            h ← Result.isErr mapped;
            i ← Result.errOrNull mapped;
            mret (a, b, c, d, e, f, g, h, i)) [] in
  result r = Normal (false, true, VRef 0, VNum 0, VNum 6, VNull,
                     VRef 0, true, VRef 0)
  /\ Result.getOrThrow 1 (store_after r)
     = Run [] (store_after r) (Throw (VRef 0))
  /\ Result.toString 0 1 (store_after r) = Some (Normal (VStr "Err(failed)")).
Proof. vm_compute. repeat split; reflexivity. Qed.

(** ** Evaluating a method on a known receiver *)

Lemma lookup_fresh (s : store) (o : object) :
  (s ++ [o]) !! length s = Some o.
Proof. rewrite lookup_app_r by lia. now rewrite Nat.sub_diag. Qed.

Lemma fields_instance (s : store) (r : loc) (c : class) (p : jsval) :
  instance_of s r c p ->
  Result.fields r s = Run [] s (Normal (constructed c p)).
Proof. intros H. unfold Result.fields. now rewrite H. Qed.

Lemma instance_of_fresh (s : store) (c : class) (p : jsval) :
  instance_of (s ++ [OResult (constructed c p)]) (length s) c p.
Proof. apply lookup_fresh. Qed.

Lemma bind_new {B} (c : class) (v : jsval) (fl fl' : bool)
    (k : loc -> M B) (s : store) :
  (r ← Result.constructor c v fl fl'; k r) s
  = k (length s) (s ++ [OResult (Instance c v fl fl')]).
Proof.
  unfold mbind, M_bind, bind, Result.constructor, alloc. cbn.
  now destruct (k _ _).
Qed.

Ltac unfold_methods :=
  unfold Result.map, Result.fold, Result.getOrNull, Result.errOrNull,
    Result.getOrThrow, Result.dispatch, Result.getOrDefault,
    Result.getOrElse, Result.toJSON, Result.ok, Result.err,
    Result.Ok_map, Result.Ok_fold, Result.Ok_getOrNull, Result.Ok_errOrNull,
    Result.Ok_getOrThrow, Result.Ok_new, Result.Err_map, Result.Err_fold,
    Result.Err_getOrNull, Result.Err_errOrNull, Result.Err_getOrThrow,
    Result.Err_new, Result.constructor, Result.isOk, Result.isErr,
    Result.value, mbind, M_bind, bind, mret, M_ret, ret, throw, alloc,
    invoke.

(** Runs the methods in the goal on the receiver described by [H]. *)
Ltac exec H :=
  unfold_methods;
  repeat first [rewrite (fields_instance _ _ _ _ H) | progress cbn].

(** ** The factories and the accessors *)

(** C2. For every value [v], [Result.ok(v)] is a fresh instance on which
    [isOk] is true, [isErr] is false, [value] is [v], [getOrNull()] is [v],
    [errOrNull()] is null and [getOrThrow()] returns [v] without raising;
    none of them changes the store or calls anything. *)
Theorem ok_accessors (s : store) (v : jsval) :
  let r := length s in
  let s' := s ++ [OResult (constructed ClsOk v)] in
  Result.ok v s = Run [] s' (Normal r)
  /\ Result.isOk r s' = Run [] s' (Normal true)
  /\ Result.isErr r s' = Run [] s' (Normal false)
  /\ Result.value r s' = Run [] s' (Normal v)
  /\ Result.getOrNull r s' = Run [] s' (Normal v)
  /\ Result.errOrNull r s' = Run [] s' (Normal VNull)
  /\ Result.getOrThrow r s' = Run [] s' (Normal v).
Proof.
  intros r s'.
  pose proof (instance_of_fresh s ClsOk v) as H. fold r s' in H.
  repeat apply conj; try reflexivity; exec H; reflexivity.
Qed.

(** C1. For every error [e], [Result.err(e)] is a fresh instance on which
    [isOk] is false, [isErr] is true, [value] is [e], [getOrNull()] is null,
    [errOrNull()] is [e], and [getOrThrow()] raises [e] itself: the thrown
    value is the payload, the same reference, not a wrapper or a copy. *)
Theorem err_accessors (s : store) (e : jsval) :
  let r := length s in
  let s' := s ++ [OResult (constructed ClsErr e)] in
  Result.err e s = Run [] s' (Normal r)
  /\ Result.isOk r s' = Run [] s' (Normal false)
  /\ Result.isErr r s' = Run [] s' (Normal true)
  /\ Result.value r s' = Run [] s' (Normal e)
  /\ Result.getOrNull r s' = Run [] s' (Normal VNull)
  /\ Result.errOrNull r s' = Run [] s' (Normal e)
  /\ Result.getOrThrow r s' = Run [] s' (Throw e).
Proof.
  intros r s'.
  pose proof (instance_of_fresh s ClsErr e) as H. fold r s' in H.
  repeat apply conj; try reflexivity; exec H; reflexivity.
Qed.

(** ** [map] and [fold] *)

(** C3. On an Ok holding [p], [map(fn)] calls [fn] exactly once, on [p], and
    when that call returns [u] the result is a new Ok holding [u].  On an
    Err holding [p] it calls nothing, changes nothing, and the result still
    has [p] as its error: [Result.err(e).map(f).errOrNull() == e]. *)
Theorem map_spec (s : store) (r : loc) (c : class) (p : jsval) (fn : jsfun) :
  instance_of s r c p ->
  let out := Result.map r fn s in
  match c with
  | ClsOk =>
      trace out = [Invoke (fid fn) p]
      /\ invocations (fid fn) (trace out) = 1
      /\ forall s' u, body fn p s = (s', Normal u) ->
           result out = Normal (length s')
           /\ store_after out = s' ++ [OResult (constructed ClsOk u)]
  | ClsErr =>
      out = Run [] s (Normal r)
      /\ invocations (fid fn) (trace out) = 0
      /\ (r' ← Result.map r fn; Result.errOrNull r') s = Run [] s (Normal p)
  end.
Proof.
  intros H out. subst out. destruct c.
  - exec H.
    destruct (body fn p s) as [s1 [u1|x|msg]] eqn:Hb; cbn;
      rewrite Nat.eqb_refl; repeat apply conj; try reflexivity;
      intros s' u Hu; inversion Hu; subst; now split.
  - exec H. repeat apply conj; reflexivity.
Qed.

Lemma map_spec_witness :
  instance_of [OResult (constructed ClsOk (VNum 2))] 0 ClsOk (VNum 2)
  /\ let out := Result.map 0 Scenario.times_two
                  [OResult (constructed ClsOk (VNum 2))] in
     trace out = [Invoke 2 (VNum 2)]
     /\ invocations 2 (trace out) = 1
     /\ forall s' u,
          body Scenario.times_two (VNum 2)
            [OResult (constructed ClsOk (VNum 2))] = (s', Normal u) ->
          result out = Normal (length s')
          /\ store_after out = s' ++ [OResult (constructed ClsOk u)].
Proof.
  split; [reflexivity|].
  apply (map_spec [OResult (constructed ClsOk (VNum 2))] 0 ClsOk (VNum 2)
           Scenario.times_two).
  reflexivity.
Defined.

(** C4. [fold(ifOk, ifErr)] makes exactly one call: to [ifOk] on the payload
    of an Ok, to [ifErr] on the payload of an Err.  It ends as that call
    ends, with its result, and no other function is called. *)
Theorem fold_spec (s : store) (r : loc) (c : class) (p : jsval)
    (ifOk ifErr : jsfun) :
  instance_of s r c p ->
  let f := chosen c ifOk ifErr in
  let out := Result.fold r ifOk ifErr s in
  out = Run [Invoke (fid f) p] (fst (body f p s)) (snd (body f p s))
  /\ invocations (fid f) (trace out) = 1
  /\ forall g, fid g <> fid f -> invocations (fid g) (trace out) = 0.
Proof.
  intros H f out. subst f out.
  destruct c; exec H; rewrite Nat.eqb_refl; repeat apply conj;
    try reflexivity; intros g Hg; apply Nat.eqb_neq in Hg; now rewrite Hg.
Qed.

Lemma fold_spec_witness :
  instance_of [OResult (constructed ClsOk (VNum 42))] 0 ClsOk (VNum 42)
  /\ let out := Result.fold 0 Scenario.times_two
                  (Scenario.constant 4 (VNum (-1)))
                  [OResult (constructed ClsOk (VNum 42))] in
     out = Run [Invoke 2 (VNum 42)] [OResult (constructed ClsOk (VNum 42))]
             (Normal (VNum 84))
     /\ invocations 2 (trace out) = 1
     /\ forall g, fid g <> 2 -> invocations (fid g) (trace out) = 0.
Proof.
  split; [reflexivity|].
  apply (fold_spec [OResult (constructed ClsOk (VNum 42))] 0 ClsOk
           (VNum 42) Scenario.times_two (Scenario.constant 4 (VNum (-1)))).
  reflexivity.
Defined.

(** ** Extraction with a fallback *)

(** C6. [getOrDefault(d)] returns the payload of an Ok and [d] on an Err,
    calling nothing.  [getOrElse(onErr)] returns the payload of an Ok
    without calling [onErr]; on an Err it calls [onErr] once, on the error,
    and ends as that call ends. *)
Theorem getOrDefault_getOrElse_spec (s : store) (r : loc) (c : class)
    (p d : jsval) (onErr : jsfun) :
  instance_of s r c p ->
  Result.getOrDefault r d s
    = Run [] s (Normal (match c with ClsOk => p | ClsErr => d end))
  /\ Result.getOrElse r onErr s
      = match c with
        | ClsOk => Run [] s (Normal p)
        | ClsErr => Run [Invoke (fid onErr) p] (fst (body onErr p s))
                      (snd (body onErr p s))
        end
  /\ invocations (fid onErr) (trace (Result.getOrElse r onErr s))
      = match c with ClsOk => 0 | ClsErr => 1 end.
Proof.
  intros H.
  destruct c; exec H; rewrite ?Nat.eqb_refl; repeat apply conj; reflexivity.
Qed.

Lemma getOrDefault_getOrElse_spec_witness :
  instance_of [OResult (constructed ClsOk (VNum 42))] 0 ClsOk (VNum 42)
  /\ Result.getOrDefault 0 (VNum 0) [OResult (constructed ClsOk (VNum 42))]
      = Run [] [OResult (constructed ClsOk (VNum 42))] (Normal (VNum 42))
  /\ Result.getOrElse 0 Scenario.rethrow
        [OResult (constructed ClsOk (VNum 42))]
      = Run [] [OResult (constructed ClsOk (VNum 42))] (Normal (VNum 42))
  /\ invocations 6
        (trace (Result.getOrElse 0 Scenario.rethrow
                  [OResult (constructed ClsOk (VNum 42))])) = 0.
Proof.
  split; [reflexivity|].
  apply (getOrDefault_getOrElse_spec [OResult (constructed ClsOk (VNum 42))]
           0 ClsOk (VNum 42) (VNum 0) Scenario.rethrow).
  reflexivity.
Defined.

(** ** [fold] as the eliminator *)

(** C8. Each read-only accessor ends as a [fold] with the matching pair of
    handlers ends, and leaves the same store: [getOrNull] as
    [fold(v => v, _ => null)], [errOrNull] as [fold(_ => null, e => e)],
    [getOrDefault(d)] as [fold(v => v, _ => d)], [getOrElse(f)] as
    [fold(v => v, f)], [isOk] as [fold(_ => true, _ => false)] and [isErr]
    as [fold(_ => false, _ => true)]. *)
Theorem accessors_by_fold (s : store) (r : loc) (c : class) (p d : jsval)
    (f : jsfun) (i j : nat) :
  instance_of s r c p ->
  agree (Result.getOrNull r s)
        (Result.fold r (Scenario.identity i) (Scenario.constant j VNull) s)
  /\ agree (Result.errOrNull r s)
        (Result.fold r (Scenario.constant i VNull) (Scenario.identity j) s)
  /\ agree (Result.getOrDefault r d s)
        (Result.fold r (Scenario.identity i) (Scenario.constant j d) s)
  /\ agree (Result.getOrElse r f s)
        (Result.fold r (Scenario.identity i) f s)
  /\ completion_map VBool (result (Result.isOk r s))
     = result (Result.fold r (Scenario.constant i (VBool true))
                 (Scenario.constant j (VBool false)) s)
  /\ completion_map VBool (result (Result.isErr r s))
     = result (Result.fold r (Scenario.constant i (VBool false))
                 (Scenario.constant j (VBool true)) s).
Proof.
  intros H. unfold agree.
  destruct c; exec H; repeat apply conj; reflexivity.
Qed.

Lemma accessors_by_fold_witness :
  let s := [OResultErr "failed" "MyError"; OResult (constructed ClsErr (VRef 0))] in
  instance_of s 1 ClsErr (VRef 0)
  /\ agree (Result.getOrNull 1 s)
       (Result.fold 1 (Scenario.identity 7) (Scenario.constant 8 VNull) s)
  /\ agree (Result.errOrNull 1 s)
       (Result.fold 1 (Scenario.constant 7 VNull) (Scenario.identity 8) s)
  /\ agree (Result.getOrDefault 1 (VNum 0) s)
       (Result.fold 1 (Scenario.identity 7) (Scenario.constant 8 (VNum 0)) s)
  /\ agree (Result.getOrElse 1 Scenario.message_length s)
       (Result.fold 1 (Scenario.identity 7) Scenario.message_length s)
  /\ completion_map VBool (result (Result.isOk 1 s))
     = result (Result.fold 1 (Scenario.constant 7 (VBool true))
                 (Scenario.constant 8 (VBool false)) s)
  /\ completion_map VBool (result (Result.isErr 1 s))
     = result (Result.fold 1 (Scenario.constant 7 (VBool false))
                 (Scenario.constant 8 (VBool true)) s).
Proof.
  intros s. split; [reflexivity|].
  apply (accessors_by_fold s 1 ClsErr (VRef 0) (VNum 0)
           Scenario.message_length 7 8).
  reflexivity.
Defined.

(** ** Serialization *)

(** C9. [toJSON()] returns a fresh record [{ value, isOk, isErr }] whose
    [value] is the payload as it is and whose flags are what [isOk] and
    [isErr] return: true and false on an Ok, false and true on an Err. *)
Theorem toJSON_spec (s : store) (r : loc) (c : class) (p : jsval) :
  instance_of s r c p ->
  let b := is_ok_class c in
  Result.toJSON r s
    = Run [] (s ++ [ORecord p (VBool b) (VBool (negb b))]) (Normal (length s))
  /\ Result.isOk r s = Run [] s (Normal b)
  /\ Result.isErr r s = Run [] s (Normal (negb b)).
Proof.
  intros H b. subst b.
  destruct c; exec H; repeat apply conj; reflexivity.
Qed.

Lemma toJSON_spec_witness :
  let s := store_after (Result.ok (VNum 42) []) in
  instance_of s 0 ClsOk (VNum 42)
  /\ Result.toJSON 0 s
     = Run [] (s ++ [ORecord (VNum 42) (VBool true) (VBool false)]) (Normal 1)
  /\ Result.isOk 0 s = Run [] s (Normal true)
  /\ Result.isErr 0 s = Run [] s (Normal false).
Proof.
  intros s. split; [reflexivity|].
  apply (toJSON_spec s 0 ClsOk (VNum 42)).
  reflexivity.
Defined.

Example toJSON_err :
  let s := store_after ((e ← Scenario.MyError "failed"; Result.err (VRef e)) []) in
  Result.toJSON 1 s
  = Run [] (s ++ [ORecord (VRef 0) (VBool false) (VBool true)]) (Normal 2).
Proof. reflexivity. Qed.

(** ** The null sentinel *)

(** C10. [Result.ok(null).getOrNull()] is null although [isOk] is true, and
    [Result.err(e).getOrNull()] is null for every [e]: the two calls of
    [getOrNull] end alike. *)
Theorem getOrNull_ambiguous (s s' : store) (e : jsval) :
  let of_ok := (r ← Result.ok VNull;
                b ← Result.isOk r; v ← Result.getOrNull r; mret (b, v)) s in
  let of_err := (r ← Result.err e;
                 b ← Result.isOk r; v ← Result.getOrNull r; mret (b, v)) s' in
  result of_ok = Normal (true, VNull)
  /\ result of_err = Normal (false, VNull)
  /\ completion_map snd (result of_ok) = completion_map snd (result of_err).
Proof.
  intros of_ok of_err. subst of_ok of_err.
  pose proof (instance_of_fresh s ClsOk VNull) as Hok.
  pose proof (instance_of_fresh s' ClsErr e) as Herr.
  unfold Result.ok, Result.err, Result.Ok_new, Result.Err_new.
  rewrite !bind_new.
  change (Instance ClsOk VNull true false) with (constructed ClsOk VNull).
  change (Instance ClsErr e false true) with (constructed ClsErr e).
  set (s1 := s ++ _) in *. set (s1' := s' ++ _) in *.
  split; [|split].
  - exec Hok. reflexivity.
  - exec Herr. reflexivity.
  - exec Hok. exec Herr. reflexivity.
Qed.

(** ** What every method keeps

    A relation [R] between the store before and the store after, reflexive
    and transitive, is kept by a method as soon as it is kept by the
    allocations the method makes and by the functions it calls. *)

Section Respects.

Context (R : relation store) `{!PreOrder R}.

Definition respects {A} (m : M A) : Prop :=
  forall s, R s (store_after (m s)).

Lemma respects_ret {A} (a : A) : respects (mret a : M A).
Proof. intros s. reflexivity. Qed.

Lemma respects_throw {A} (v : jsval) : respects (throw v : M A).
Proof. intros s. reflexivity. Qed.

Lemma respects_fields (this : loc) : respects (Result.fields this).
Proof.
  intros s. unfold Result.fields.
  repeat case_match; reflexivity.
Qed.

Lemma respects_invoke (f : jsfun) (v : jsval) :
  (forall u s, R s (fst (body f u s))) -> respects (invoke f v).
Proof. intros Hf s. apply Hf. Qed.

Lemma respects_bind {A B} (m : M A) (k : A -> M B) :
  respects m -> (forall a, respects (k a)) -> respects (x ← m; k x).
Proof.
  intros Hm Hk s. unfold mbind, M_bind, bind.
  specialize (Hm s).
  destruct (m s) as [t s1 [a|v|msg]]; cbn in *; trivial.
  specialize (Hk a s1).
  destruct (k a s1) as [t' s2 c]; cbn in *.
  etransitivity; eassumption.
Qed.

Lemma respects_if {A} (b : bool) (m m' : M A) :
  respects m -> respects m' -> respects (if b then m else m').
Proof. now destruct b. Qed.

Lemma respects_class {A} (c : class) (m m' : M A) :
  respects m -> respects m' ->
  respects (match c with ClsOk => m | ClsErr => m' end).
Proof. now destruct c. Qed.

(** The allocations of [Result]: the two constructors and the record of
    [toJSON]. *)
Hypothesis R_new : forall s c p, R s (s ++ [OResult (constructed c p)]).
Hypothesis R_record : forall s v b b', R s (s ++ [ORecord v b b']).

Lemma respects_Ok_new (v : jsval) : respects (Result.Ok_new v).
Proof. intros s. apply (R_new s ClsOk v). Qed.

Lemma respects_Err_new (v : jsval) : respects (Result.Err_new v).
Proof. intros s. apply (R_new s ClsErr v). Qed.

Lemma respects_record (v b b' : jsval) : respects (alloc (ORecord v b b')).
Proof. intros s. apply R_record. Qed.

Hint Resolve respects_ret respects_throw respects_fields respects_invoke
  respects_if respects_class respects_Ok_new respects_Err_new
  respects_record : core.
Hint Extern 2 (respects (mbind _ _)) =>
  apply respects_bind; [| intro] : core.

Ltac solve_respects :=
  unfold Result.map, Result.fold, Result.getOrNull, Result.errOrNull,
    Result.getOrThrow, Result.dispatch, Result.getOrDefault,
    Result.getOrElse, Result.toJSON, Result.ok, Result.err,
    Result.Ok_map, Result.Ok_fold, Result.Ok_getOrNull,
    Result.Ok_errOrNull, Result.Ok_getOrThrow, Result.Err_map,
    Result.Err_fold, Result.Err_getOrNull, Result.Err_errOrNull,
    Result.Err_getOrThrow, Result.isOk, Result.isErr, Result.value;
  auto 12.

Lemma respects_factories (v : jsval) :
  respects (Result.ok v) /\ respects (Result.err v).
Proof. split; solve_respects. Qed.

Lemma respects_accessors (r : loc) (d : jsval) :
  respects (Result.isOk r) /\ respects (Result.isErr r)
  /\ respects (Result.value r) /\ respects (Result.getOrDefault r d)
  /\ respects (Result.getOrNull r) /\ respects (Result.errOrNull r)
  /\ respects (Result.getOrThrow r) /\ respects (Result.toJSON r).
Proof. repeat apply conj; solve_respects. Qed.

Lemma respects_combinators (r : loc) (f g : jsfun) :
  (forall u s, R s (fst (body f u s))) ->
  (forall u s, R s (fst (body g u s))) ->
  respects (Result.map r f) /\ respects (Result.fold r f g)
  /\ respects (Result.getOrElse r f).
Proof. intros Hf Hg. repeat apply conj; solve_respects. Qed.

End Respects.

(** *** No method writes to an object that exists *)

Lemma frame_factories (v : jsval) :
  frame (Result.ok v) /\ frame (Result.err v).
Proof.
  apply (respects_factories prefix); intros; now apply prefix_app_r.
Qed.

Lemma frame_accessors (r : loc) (d : jsval) :
  frame (Result.isOk r) /\ frame (Result.isErr r) /\ frame (Result.value r)
  /\ frame (Result.getOrDefault r d) /\ frame (Result.getOrNull r)
  /\ frame (Result.errOrNull r) /\ frame (Result.getOrThrow r)
  /\ frame (Result.toJSON r).
Proof.
  apply (respects_accessors prefix); intros; now apply prefix_app_r.
Qed.

Lemma frame_combinators (r : loc) (f g : jsfun) :
  preserving f -> preserving g ->
  frame (Result.map r f) /\ frame (Result.fold r f g)
  /\ frame (Result.getOrElse r f).
Proof.
  intros Hf Hg.
  apply (respects_combinators prefix); trivial; intros; now apply prefix_app_r.
Qed.

Lemma prefix_unchanged (s s' : store) : s `prefix_of` s' -> unchanged s s'.
Proof. intros Hp l o Hl. eapply prefix_lookup_Some; eassumption. Qed.

(** *** Every [Result] comes from a constructor *)

Definition wf_step (s s' : store) : Prop := wf_store s -> wf_store s'.

#[local] Instance wf_step_preorder : PreOrder wf_step.
Proof.
  split.
  - now intros s.
  - intros s1 s2 s3 H12 H23 H1. auto.
Qed.

Lemma wf_store_instance_of (s : store) (r : loc) (i : instance) :
  wf_store s -> s !! r = Some (OResult i) ->
  instance_of s r (cls i) (_value i).
Proof. intros Hwf Hr. unfold instance_of. now rewrite <- (Hwf r i Hr). Qed.

Lemma wf_store_nil : wf_store [].
Proof. intros l i Hl. discriminate Hl. Qed.

Lemma wf_store_snoc (s : store) (o : object) :
  (forall i, o = OResult i -> i = constructed (cls i) (_value i)) ->
  wf_step s (s ++ [o]).
Proof.
  intros Ho Hwf l i Hl.
  apply lookup_app_Some in Hl as [Hl | [_ Hl]]; [now apply (Hwf l)|].
  apply list_lookup_singleton_Some in Hl as [_ ->]. now apply Ho.
Qed.

Lemma wf_store_operations (s : store) (r : loc) (v : jsval) (fn : jsfun) :
  wf_store s ->
  (forall u s0, wf_store s0 -> wf_store (fst (body fn u s0))) ->
  wf_store (store_after (Result.ok v s))
  /\ wf_store (store_after (Result.err v s))
  /\ wf_store (store_after (Result.toJSON r s))
  /\ wf_store (store_after (Result.map r fn s)).
Proof.
  intros Hwf Hfn.
  assert (Hnew : forall s c p, wf_step s (s ++ [OResult (constructed c p)])).
  { intros s0 c p. apply wf_store_snoc. intros i [= <-]. now destruct c. }
  assert (Hrec : forall s v b b', wf_step s (s ++ [ORecord v b b'])).
  { intros s0 v0 b b'. apply wf_store_snoc. intros i [=]. }
  destruct (respects_factories wf_step Hnew v) as [Hok Herr].
  destruct (respects_accessors wf_step Hrec r VNull)
    as (_ & _ & _ & _ & _ & _ & _ & Hjson).
  destruct (respects_combinators wf_step Hnew r fn fn Hfn Hfn) as (Hmap & _).
  repeat apply conj; [apply Hok | apply Herr | apply Hjson | apply Hmap];
    exact Hwf.
Qed.

(** ** Identity of the result of [map] *)

(** C5. On an Err, [map] hands back its receiver and allocates nothing:
    [r.map(f)] is [r] itself, not a new instance distinct from [r], although
    the doc comment of [map] announces "A new Result" and [Ok.map] builds
    one. *)
Lemma map_on_Err_returns_receiver :
  let s := [OResultErr "failed" "MyError";
            OResult (constructed ClsErr (VRef 0))] in
  instance_of s 1 ClsErr (VRef 0)
  /\ Result.map 1 (Scenario.constant 3 (VNum 123)) s = Run [] s (Normal 1).
Proof. split; reflexivity. Qed.

(** Whatever the receiver and the store, no operation changes an object
    that exists, the functions handed to [map], [fold] and [getOrElse]
    being ones that change none either: after [ok], [err], [isOk], [isErr],
    [value], [getOrDefault], [getOrElse], [getOrNull], [errOrNull],
    [getOrThrow], [toJSON], [fold] and [map], every object of the store
    before is still at its reference, as it was. *)
Theorem no_operation_writes (s : store) (r : loc) (d v : jsval)
    (fn g : jsfun) :
  preserving fn -> preserving g ->
  unchanged s (store_after (Result.ok v s))
  /\ unchanged s (store_after (Result.err v s))
  /\ unchanged s (store_after (Result.isOk r s))
  /\ unchanged s (store_after (Result.isErr r s))
  /\ unchanged s (store_after (Result.value r s))
  /\ unchanged s (store_after (Result.getOrDefault r d s))
  /\ unchanged s (store_after (Result.getOrElse r fn s))
  /\ unchanged s (store_after (Result.getOrNull r s))
  /\ unchanged s (store_after (Result.errOrNull r s))
  /\ unchanged s (store_after (Result.getOrThrow r s))
  /\ unchanged s (store_after (Result.toJSON r s))
  /\ unchanged s (store_after (Result.fold r fn g s))
  /\ unchanged s (store_after (Result.map r fn s)).
Proof.
  intros Hfn Hg.
  destruct (frame_factories v) as (? & ?).
  destruct (frame_accessors r d) as (? & ? & ? & ? & ? & ? & ? & ?).
  destruct (frame_combinators r fn g Hfn Hg) as (? & ? & ?).
  repeat apply conj; apply prefix_unchanged; auto.
Qed.

Lemma no_operation_writes_witness :
  let s := [OResultErr "failed" "MyError";
            OResult (constructed ClsErr (VRef 0));
            OResult (constructed ClsOk (VNum 2))] in
  preserving Scenario.times_two
  /\ preserving Scenario.message_length
  /\ unchanged s (store_after (Result.toJSON 1 s))
  /\ unchanged s (store_after (Result.getOrElse 1 Scenario.times_two s))
  /\ unchanged s
       (store_after (Result.fold 1 Scenario.times_two
                       Scenario.message_length s))
  /\ unchanged s (store_after (Result.map 2 Scenario.times_two s)).
Proof.
  intros s.
  assert (Hf : preserving Scenario.times_two) by (intros ? ?; reflexivity).
  assert (Hg : preserving Scenario.message_length)
    by (intros ? ?; reflexivity).
  repeat apply conj; trivial.
  - apply (no_operation_writes s 1 VNull VNull Scenario.times_two
             Scenario.message_length Hf Hg).
  - apply (no_operation_writes s 1 VNull VNull Scenario.times_two
             Scenario.message_length Hf Hg).
  - apply (no_operation_writes s 1 VNull VNull Scenario.times_two
             Scenario.message_length Hf Hg).
  - apply (no_operation_writes s 2 VNull VNull Scenario.times_two
             Scenario.message_length Hf Hg).
Defined.

(** ** String conversion: fuel and termination *)

Lemma toString_of_mono (conv conv' : jsval -> option (completion string))
    (s : store) (i : instance) (c : completion string) :
  (forall v x, conv v = Some x -> conv' v = Some x) ->
  Result.toString_of conv s i = Some c ->
  Result.toString_of conv' s i = Some c.
Proof.
  intros Hconv. unfold Result.toString_of, Result.Ok_toString,
    Result.Err_toString.
  destruct (cls i).
  - destruct (conv (_value i)) as [x|] eqn:E; [|discriminate].
    now rewrite (Hconv _ _ E).
  - destruct (get_message s (_value i)) as [m| |]; trivial.
    destruct (conv m) as [x|] eqn:E; [|discriminate].
    now rewrite (Hconv _ _ E).
Qed.

Lemma ToString_ref (s : store) (n : nat) (l : loc) :
  Result.ToString (S n) s (VRef l)
  = match s !! l with
    | Some (OResult i) => Result.toString_of (Result.ToString n s) s i
    | Some (OResultErr message _) => Some (Normal (Error_toString message))
    | Some (ORecord _ _ _) => Some (Normal "[object Object]")
    | Some (OForeign _ rendering) => rendering
    | None => Some (TypeError "dangling reference")
    end.
Proof. reflexivity. Qed.

(** More fuel never changes an answer. *)
Lemma ToString_mono (s : store) (n m : nat) (v : jsval)
    (c : completion string) :
  n <= m -> Result.ToString n s v = Some c -> Result.ToString m s v = Some c.
Proof.
  revert m v c. induction n as [|n IH]; intros m v c Hle H.
  - destruct v; try discriminate H; destruct m; exact H.
  - destruct m as [|m]; [lia|].
    destruct v; try exact H. rewrite ToString_ref in *.
    destruct (s !! l) as [[i| | |]|]; try exact H.
    eapply toString_of_mono; [|exact H].
    intros v x Hv. apply IH; [lia | exact Hv].
Qed.

Lemma acyclic_from_lookup (s : store) (n l : nat) (o : object) :
  acyclic_from n s = true -> s !! l = Some o -> refs_before (n + l) o = true.
Proof.
  revert n l. induction s as [|o' s IH]; intros n l Ha Hl; [discriminate Hl|].
  cbn in Ha. apply andb_true_iff in Ha as [Ho Ha].
  destruct l as [|l]; cbn in Hl.
  - injection Hl as <-. now rewrite Nat.add_0_r.
  - rewrite Nat.add_succ_r. apply (IH (S n) l Ha Hl).
Qed.



Lemma acyclic_lookup (s : store) (l l' : loc) (i : instance) :
  acyclic s = true -> s !! l = Some (OResult i) -> _value i = VRef l' ->
  l' < l.
Proof.
  intros Ha Hl Hv. pose proof (acyclic_from_lookup s 0 l _ Ha Hl) as H.
  cbn in H. rewrite Hv in H. now apply Nat.ltb_lt in H.
Qed.

Lemma tame_lookup (s : store) (l : loc) (o : object) :
  tame s = true -> s !! l = Some o -> tame_object o = true.
Proof.
  revert l. induction s as [|o' s IH]; intros l Ht Hl; [discriminate Hl|].
  cbn in Ht. apply andb_true_iff in Ht as [Ho Ht].
  destruct l as [|l]; cbn in Hl.
  - now injection Hl as <-.
  - now apply (IH l).
Qed.

Lemma ToString_primitive (s : store) (n : nat) (v : jsval) :
  (forall l, v <> VRef l) -> exists c, Result.ToString n s v = Some c.
Proof. intros Hv. destruct v, n; cbn; eauto; now destruct (Hv l). Qed.

Lemma get_message_not_ref (s : store) (v m : jsval) :
  tame s = true ->
  get_message s v = Normal m -> forall n, exists c,
    Result.ToString n s m = Some c.
Proof.
  intros Ht H n. apply ToString_primitive. intros l' ->.
  destruct v; cbn in H; try discriminate H.
  destruct (s !! l) as [[i|msg tag|x b b'|msg rd]|] eqn:E; try discriminate H.
  pose proof (tame_lookup s l _ Ht E) as Ho. cbn in Ho. subst msg.
  discriminate Ho.
Qed.

(** In a store without cycles whose foreign objects are tame, the
    conversion of a reference [l] ends with any fuel above [l]. *)
Lemma ToString_terminates (s : store) :
  acyclic s = true -> tame s = true ->
  forall n l, l < n -> exists c, Result.ToString n s (VRef l) = Some c.
Proof.
  intros Ha Ht. induction n as [|n IH]; intros l Hl; [lia|].
  rewrite ToString_ref.
  destruct (s !! l) as [[i|msg tag|x b b'|msg rd]|] eqn:E; eauto.
  - unfold Result.toString_of, Result.Ok_toString, Result.Err_toString.
    destruct (cls i).
    + destruct (_value i) as [| |b|z|x|x|l'] eqn:Ev;
        try (destruct n; cbn; eauto; fail).
      assert (l' < l) by (eapply acyclic_lookup; eassumption).
      destruct (IH l') as [c Hc]; [lia|]. rewrite Hc. destruct c; eauto.
    + destruct (get_message s (_value i)) as [m| |] eqn:Em; eauto.
      destruct (get_message_not_ref s _ m Ht Em n) as [c Hc].
      rewrite Hc. destruct c; eauto.
  - pose proof (tame_lookup s l _ Ht E) as Ho. cbn in Ho.
    apply andb_true_iff in Ho as [_ Ho]. destruct rd; [eauto | discriminate].
Qed.

(** In a store without forward references whose foreign objects are tame,
    [toString] on a [Result] at reference [r] ends, returning or raising,
    with fuel [r]: the nesting of payloads is at most that deep. *)
Theorem toString_terminates (s : store) (r : loc) (c : class) (p : jsval) :
  acyclic s = true -> tame s = true -> instance_of s r c p ->
  exists x, Result.toString r r s = Some x.
Proof.
  intros Ha Ht H. unfold Result.toString. rewrite H.
  unfold Result.toString_of, Result.Ok_toString, Result.Err_toString.
  destruct c; cbn.
  - destruct p as [| |b|z|x|x|l'] eqn:Ev;
      try (destruct r; cbn; eauto; fail).
    assert (l' < r) by (eapply acyclic_lookup; [exact Ha | exact H | reflexivity]).
    destruct (ToString_terminates s Ha Ht r l') as [x Hx]; [lia|].
    rewrite Hx. destruct x; eauto.
  - destruct (get_message s p) as [m| |] eqn:Em; eauto.
    destruct (get_message_not_ref s _ m Ht Em r) as [x Hx].
    rewrite Hx. destruct x; eauto.
Qed.

Lemma toString_terminates_witness :
  let s := [OForeign (Normal (VStr "boom")) (Some (Throw (VNum 7)));
            OResult (constructed ClsOk (VRef 0));
            OResult (constructed ClsOk (VRef 1))] in
  acyclic s = true /\ tame s = true
  /\ instance_of s 2 ClsOk (VRef 1)
  /\ exists x, Result.toString 2 2 s = Some x.
Proof.
  intros s. repeat apply conj; try reflexivity.
  apply (toString_terminates s 2 ClsOk (VRef 1)); reflexivity.
Defined.

(** ** What raises *)

(** [getOrThrow] on an Err is not the only operation that raises:
    [toString] on an Ok holding a Symbol raises the TypeError of the failed
    string conversion, and [getOrElse] on an Err raises what [onErr]
    raises. *)
Lemma toString_and_getOrElse_raise :
  let s := store_after (Result.ok (VSymbol "id") []) in
  let s' := [OResultErr "failed" "MyError";
             OResult (constructed ClsErr (VRef 0))] in
  instance_of s 0 ClsOk (VSymbol "id")
  /\ Result.toString 0 0 s
     = Some (TypeError "Cannot convert a Symbol value to a string")
  /\ instance_of s' 1 ClsErr (VRef 0)
  /\ Result.getOrElse 1 Scenario.rethrow s'
     = Run [Invoke 6 (VRef 0)] s' (Throw (VRef 0)).
Proof. repeat apply conj; reflexivity. Qed.

(** C7, amended. On a [Result] whose error (on an Err) is a [ResultErr]:
    the factories, [isOk], [isErr], [value], [getOrDefault], [getOrNull],
    [errOrNull] and [toJSON] never raise; [getOrThrow] returns the payload
    of an Ok and, on an Err, throws the contained error itself; [map],
    [fold] and [getOrElse] raise exactly when the function they call
    raises; [toString] returns ["Err(message)"] on an Err, and on an Ok
    ends as the host's string conversion of the payload ends: with
    ["Ok(...)"] around its string, or raising what it raises. *)
Theorem raising_spec (s : store) (r : loc) (c : class) (p d v : jsval)
    (f g : jsfun) (message : string) :
  instance_of s r c p ->
  (c = ClsErr -> is_ResultErr s p message) ->
  (raises (result (Result.ok v s)) = false
   /\ raises (result (Result.err v s)) = false
   /\ raises (result (Result.isOk r s)) = false
   /\ raises (result (Result.isErr r s)) = false
   /\ raises (result (Result.value r s)) = false
   /\ raises (result (Result.getOrDefault r d s)) = false
   /\ raises (result (Result.getOrNull r s)) = false
   /\ raises (result (Result.errOrNull r s)) = false
   /\ raises (result (Result.toJSON r s)) = false)
  /\ Result.getOrThrow r s
     = Run [] s (match c with ClsOk => Normal p | ClsErr => Throw p end)
  /\ raises (result (Result.map r f s))
     = is_ok_class c && raises (snd (body f p s))
  /\ raises (result (Result.fold r f g s))
     = raises (snd (body (chosen c f g) p s))
  /\ raises (result (Result.getOrElse r f s))
     = negb (is_ok_class c) && raises (snd (body f p s))
  /\ forall fuel,
       Result.toString fuel r s
       = match c with
         | ClsOk =>
             option_map
               (completion_map (fun x => VStr ("Ok(" ++ x ++ ")")%string))
               (Result.ToString fuel s p)
         | ClsErr => Some (Normal (VStr ("Err(" ++ message ++ ")")%string))
         end.
Proof.
  intros H He. repeat apply conj; try reflexivity.
  1-11: destruct c; exec H; try reflexivity.
  - now destruct (body f p s) as [s' [u|x|msg]].
  - intros fuel. unfold Result.toString. rewrite H.
    unfold Result.toString_of, Result.Ok_toString, Result.Err_toString.
    destruct c; cbn.
    + now destruct (Result.ToString fuel s p) as [[x|x|msg]|].
    + destruct (He eq_refl) as (l & tag & -> & Hl). cbn. rewrite Hl.
      now destruct fuel.
Qed.

Lemma raising_spec_witness :
  let s := [OResultErr "failed" "MyError";
            OResult (constructed ClsErr (VRef 0))] in
  instance_of s 1 ClsErr (VRef 0)
  /\ (ClsErr = ClsErr -> is_ResultErr s (VRef 0) "failed")
  /\ raises (result (Result.toJSON 1 s)) = false
  /\ Result.getOrThrow 1 s = Run [] s (Throw (VRef 0))
  /\ raises (result (Result.map 1 Scenario.rethrow s)) = false
  /\ raises (result (Result.fold 1 Scenario.plus_one Scenario.rethrow s))
     = true
  /\ raises (result (Result.getOrElse 1 Scenario.rethrow s)) = true
  /\ forall fuel,
       Result.toString fuel 1 s = Some (Normal (VStr "Err(failed)")).
Proof.
  intros s.
  assert (Hi : instance_of s 1 ClsErr (VRef 0)) by reflexivity.
  assert (He : ClsErr = ClsErr -> is_ResultErr s (VRef 0) "failed").
  { intros _. exists 0, "MyError". split; reflexivity. }
  repeat apply conj; trivial;
    apply (raising_spec s 1 ClsErr (VRef 0) VNull VNull Scenario.rethrow
             Scenario.rethrow "failed" Hi He)
    || apply (raising_spec s 1 ClsErr (VRef 0) VNull VNull Scenario.plus_one
                Scenario.rethrow "failed" Hi He).
Defined.

(** * Further properties of the methods *)

Lemma bind_normal {A B} (m : M A) (k : A -> M B) (s s1 : store)
    (t : list event) (a : A) :
  m s = Run t s1 (Normal a) ->
  (x ← m; k x) s
  = Run (t ++ trace (k a s1)) (store_after (k a s1)) (result (k a s1)).
Proof.
  intros H. unfold mbind, M_bind, bind. rewrite H. now destruct (k a s1).
Qed.

Lemma map_Err (s : store) (r : loc) (p : jsval) (fn : jsfun) :
  instance_of s r ClsErr p -> Result.map r fn s = Run [] s (Normal r).
Proof. intros H. exec H. reflexivity. Qed.

Lemma map_Ok_body (s : store) (r : loc) (p : jsval) (fn : jsfun) :
  instance_of s r ClsOk p ->
  Result.map r fn s
  = match body fn p s with
    | (s', Normal u) =>
        Run [Invoke (fid fn) p] (s' ++ [OResult (constructed ClsOk u)])
          (Normal (length s'))
    | (s', Throw x) => Run [Invoke (fid fn) p] s' (Throw x)
    | (s', TypeError msg) => Run [Invoke (fid fn) p] s' (TypeError msg)
    end.
Proof.
  intros H. exec H. now destruct (body fn p s) as [s' [u|x|msg]].
Qed.

(** ** [map] with a function that raises *)

(** On an Ok, when [fn] raises, [map] ends the way [fn] ended, after that
    one call, and builds no instance: the store is the one [fn] left. *)
Theorem map_raising_fn (s : store) (r : loc) (p : jsval) (fn : jsfun) :
  instance_of s r ClsOk p ->
  (forall x, snd (body fn p s) = Throw x ->
     Result.map r fn s = Run [Invoke (fid fn) p] (fst (body fn p s)) (Throw x))
  /\ (forall msg, snd (body fn p s) = TypeError msg ->
        Result.map r fn s
        = Run [Invoke (fid fn) p] (fst (body fn p s)) (TypeError msg)).
Proof.
  intros H. rewrite (map_Ok_body s r p fn H).
  destruct (body fn p s) as [s' [u|x|msg]]; cbn; split; intros ? [=];
    now subst.
Qed.

Lemma map_raising_fn_witness :
  let s := [OResult (constructed ClsOk (VNum 2))] in
  instance_of s 0 ClsOk (VNum 2)
  /\ (forall x, snd (body Scenario.rethrow (VNum 2) s) = Throw x ->
       Result.map 0 Scenario.rethrow s = Run [Invoke 6 (VNum 2)] s (Throw x)).
Proof.
  intros s. split; [reflexivity|].
  apply (map_raising_fn s 0 (VNum 2) Scenario.rethrow). reflexivity.
Defined.

(** On an Ok, when [fn] returns and has dropped no object, the [Result]
    that [map] returns is at a reference that was not allocated before the
    call and is neither the receiver nor allocated in the store [fn]
    left: [Ok.map] always builds. *)
Theorem map_Ok_fresh (s : store) (r : loc) (p u : jsval) (fn : jsfun) :
  instance_of s r ClsOk p ->
  length s <= length (fst (body fn p s)) ->
  snd (body fn p s) = Normal u ->
  let out := Result.map r fn s in
  exists r', result out = Normal r'
    /\ r' <> r
    /\ s !! r' = None
    /\ fst (body fn p s) !! r' = None
    /\ instance_of (store_after out) r' ClsOk u
    /\ length (store_after out) = S (length (fst (body fn p s))).
Proof.
  intros H Hlen Hu out. subst out. rewrite (map_Ok_body s r p fn H).
  destruct (body fn p s) as [s' c]. cbn in *. subst c. cbn.
  assert (r < length s) by (eapply lookup_lt_Some; exact H).
  exists (length s'). repeat apply conj.
  - reflexivity.
  - lia.
  - apply lookup_ge_None. lia.
  - now apply lookup_ge_None.
  - apply (instance_of_fresh s' ClsOk u).
  - rewrite length_app. cbn. lia.
Qed.

Lemma map_Ok_fresh_witness :
  let s := [OResult (constructed ClsOk (VNum 2))] in
  let out := Result.map 0 Scenario.times_two s in
  instance_of s 0 ClsOk (VNum 2)
  /\ length s <= length (fst (body Scenario.times_two (VNum 2) s))
  /\ snd (body Scenario.times_two (VNum 2) s) = Normal (VNum 4)
  /\ exists r', result out = Normal r'
       /\ r' <> 0
       /\ s !! r' = None
       /\ fst (body Scenario.times_two (VNum 2) s) !! r' = None
       /\ instance_of (store_after out) r' ClsOk (VNum 4)
       /\ length (store_after out) = 2.
Proof.
  intros s out.
  repeat apply conj; [reflexivity | cbn; lia | reflexivity |].
  apply (map_Ok_fresh s 0 (VNum 2) (VNum 4) Scenario.times_two);
    [reflexivity | cbn; lia | reflexivity].
Defined.

(** ** The functor laws *)

(** [r.map(v => v)] is a [Result] of the same variant with the same
    payload.  On an Ok it calls the function once and builds a new
    instance, at a reference that was free and is not [r]; on an Err it
    calls nothing, builds nothing and is [r] itself.  No existing object
    changes. *)
Theorem map_identity_law (s : store) (r : loc) (c : class) (p : jsval)
    (i : nat) :
  instance_of s r c p ->
  let out := Result.map r (Scenario.identity i) s in
  match c with
  | ClsOk =>
      out = Run [Invoke i p] (s ++ [OResult (constructed ClsOk p)])
              (Normal (length s))
      /\ length s <> r /\ s !! length s = None
  | ClsErr => out = Run [] s (Normal r)
  end
  /\ exists r', result out = Normal r'
       /\ instance_of (store_after out) r' c p
       /\ unchanged s (store_after out).
Proof.
  intros H out. subst out. destruct c.
  - rewrite (map_Ok_body _ _ _ _ H). cbn.
    assert (r < length s) by (eapply lookup_lt_Some; exact H).
    repeat apply conj; [reflexivity | lia | now apply lookup_ge_None |].
    exists (length s).
    repeat apply conj; [reflexivity | apply (instance_of_fresh s ClsOk p) |].
    apply prefix_unchanged. now apply prefix_app_r.
  - rewrite (map_Err _ _ _ _ H). cbn. split; [reflexivity|]. exists r.
    repeat apply conj; [reflexivity | exact H | now intros l o].
Qed.

Lemma map_identity_law_witness :
  let s := [OResult (constructed ClsOk (VNum 42))] in
  let out := Result.map 0 (Scenario.identity 7) s in
  instance_of s 0 ClsOk (VNum 42)
  /\ (out = Run [Invoke 7 (VNum 42)]
              (s ++ [OResult (constructed ClsOk (VNum 42))]) (Normal 1)
      /\ 1 <> 0 /\ s !! 1 = None)
  /\ exists r', result out = Normal r'
       /\ instance_of (store_after out) r' ClsOk (VNum 42)
       /\ unchanged s (store_after out).
Proof.
  intros s out. split; [reflexivity|].
  apply (map_identity_law s 0 ClsOk (VNum 42) 7). reflexivity.
Defined.

(** A chain [r.map(f1)...map(fn)] of effect-free functions on an Ok calls
    each function once, in order, each on the value the one before
    returned; it ends in an Ok holding the last value and has built one
    instance per function, leaving the objects that existed in place. *)
Theorem map_chain_Ok (hs : list (nat * (jsval -> jsval))) (s : store)
    (r : loc) (p : jsval) :
  instance_of s r ClsOk p ->
  let out := map_chain r (pure_fns hs) s in
  trace out = chain_calls p hs
  /\ (exists r', result out = Normal r'
        /\ instance_of (store_after out) r' ClsOk (chain_value p hs))
  /\ length (store_after out) = length s + length hs
  /\ s `prefix_of` store_after out.
Proof.
  revert s r p. induction hs as [|[i h] hs IH]; intros s r p H out.
  - subst out. cbn.
    repeat apply conj; [reflexivity | now exists r | lia | reflexivity].
  - assert (Hm : Result.map r (pure_fn i h) s
                 = Run [Invoke i p] (s ++ [OResult (constructed ClsOk (h p))])
                     (Normal (length s)))
      by now rewrite (map_Ok_body s r p (pure_fn i h) H).
    pose proof (instance_of_fresh s ClsOk (h p)) as H1.
    destruct (IH _ _ _ H1) as (Ht & Hr & Hlen & Hpre).
    assert (Hout : out
                   = let out1 := map_chain (length s) (pure_fns hs)
                                   (s ++ [OResult (constructed ClsOk (h p))]) in
                     Run (Invoke i p :: trace out1) (store_after out1)
                       (result out1))
      by (subst out; exact (bind_normal _ _ _ _ _ _ Hm)).
    rewrite Hout. cbn [trace store_after result chain_calls chain_value fst snd].
    repeat apply conj.
    + now rewrite Ht.
    + exact Hr.
    + rewrite Hlen, length_app. cbn. lia.
    + etransitivity; [|exact Hpre]. now apply prefix_app_r.
Qed.

Lemma map_chain_Ok_witness :
  let s := [OResult (constructed ClsOk (VNum 2))] in
  let hs := [(1, fun v => match v with VNum n => VNum (n * 2) | _ => v end);
             (2, fun v => match v with VNum n => VNum (n + 1) | _ => v end)] in
  let out := map_chain 0 (pure_fns hs) s in
  instance_of s 0 ClsOk (VNum 2)
  /\ trace out = [Invoke 1 (VNum 2); Invoke 2 (VNum 4)]
  /\ (exists r', result out = Normal r'
        /\ instance_of (store_after out) r' ClsOk (VNum 5))
  /\ length (store_after out) = 3
  /\ s `prefix_of` store_after out.
Proof.
  intros s hs out. split; [reflexivity|].
  apply (map_chain_Ok hs s 0 (VNum 2)). reflexivity.
Defined.

(** A chain of [map]s on an Err, whatever the functions, calls none of
    them, builds nothing and returns the receiver. *)
Theorem map_chain_Err (fs : list jsfun) (s : store) (r : loc) (p : jsval) :
  instance_of s r ClsErr p ->
  map_chain r fs s = Run [] s (Normal r).
Proof.
  intros H. induction fs as [|f fs IH]; [reflexivity|]. cbn.
  rewrite (bind_normal _ _ _ _ _ _ (map_Err s r p f H)).
  now rewrite IH.
Qed.

Lemma map_chain_Err_witness :
  let s := [OResultErr "failed" "MyError";
            OResult (constructed ClsErr (VRef 0))] in
  instance_of s 1 ClsErr (VRef 0)
  /\ map_chain 1 [Scenario.rethrow; Scenario.plus_one] s = Run [] s (Normal 1).
Proof.
  intros s. split; [reflexivity|].
  apply (map_chain_Err [Scenario.rethrow; Scenario.plus_one] s 1 (VRef 0)).
  reflexivity.
Defined.

(** [r.map(f).fold(g, h)] gives what [r.fold(v => g(f(v)), h)] gives, for
    effect-free [f] and [g] and any [h]. *)
Theorem map_fold_fusion (s : store) (r : loc) (c : class) (p : jsval)
    (i j : nat) (f g : jsval -> jsval) (h : jsfun) :
  instance_of s r c p ->
  result ((r' ← Result.map r (pure_fn i f);
           Result.fold r' (pure_fn j g) h) s)
  = result (Result.fold r (pure_fn j (fun v => g (f v))) h s).
Proof.
  intros H. destruct c.
  - assert (Hm : Result.map r (pure_fn i f) s
                 = Run [Invoke i p] (s ++ [OResult (constructed ClsOk (f p))])
                     (Normal (length s)))
      by now rewrite (map_Ok_body s r p (pure_fn i f) H).
    rewrite (bind_normal _ _ _ _ _ _ Hm).
    pose proof (instance_of_fresh s ClsOk (f p)) as H1.
    cbn [result]. set (s1 := s ++ _) in *.
    exec H1. exec H. reflexivity.
  - rewrite (bind_normal _ _ _ _ _ _ (map_Err s r p _ H)).
    cbn [result]. exec H. reflexivity.
Qed.

Lemma map_fold_fusion_witness :
  let s := [OResult (constructed ClsOk (VNum 2))] in
  let f := fun v => match v with VNum n => VNum (n * 2) | _ => v end in
  let g := fun v => match v with VNum n => VNum (n + 1) | _ => v end in
  instance_of s 0 ClsOk (VNum 2)
  /\ result ((r' ← Result.map 0 (pure_fn 1 f);
              Result.fold r' (pure_fn 2 g) Scenario.rethrow) s)
     = result (Result.fold 0 (pure_fn 2 (fun v => g (f v))) Scenario.rethrow s).
Proof.
  intros s f g. split; [reflexivity|].
  apply (map_fold_fusion s 0 ClsOk (VNum 2) 1 2 f g Scenario.rethrow).
  reflexivity.
Defined.

(** ** Reads are repeatable *)

Section ReadOnly.

Lemma read_only_ret {A} (a : A) : read_only (mret a : M A).
Proof. now intros s. Qed.

Lemma read_only_throw {A} (v : jsval) : read_only (throw v : M A).
Proof. now intros s. Qed.

Lemma read_only_fields (this : loc) : read_only (Result.fields this).
Proof. intros s. unfold Result.fields. now repeat case_match. Qed.

Lemma read_only_bind {A B} (m : M A) (k : A -> M B) :
  read_only m -> (forall a, read_only (k a)) -> read_only (x ← m; k x).
Proof.
  intros Hm Hk s. unfold mbind, M_bind, bind.
  destruct (Hm s) as [Ht Hs].
  destruct (m s) as [t s1 [a|v|msg]]; cbn in *; subst; auto.
  destruct (Hk a s) as [Ht' Hs'].
  destruct (k a s) as [t' s2 c]; cbn in *; now subst.
Qed.

Lemma read_only_if {A} (b : bool) (m m' : M A) :
  read_only m -> read_only m' -> read_only (if b then m else m').
Proof. now destruct b. Qed.

Lemma read_only_class {A} (c : class) (m m' : M A) :
  read_only m -> read_only m' ->
  read_only (match c with ClsOk => m | ClsErr => m' end).
Proof. now destruct c. Qed.

Lemma read_only_idempotent {A} (m : M A) : read_only m -> idempotent_read m.
Proof.
  intros Hm s. destruct (Hm s) as [Ht Hs].
  unfold mbind, M_bind, bind.
  destruct (m s) as [t s1 [a|v|msg]] eqn:E; cbn in *; subst;
    try reflexivity.
  now rewrite E.
Qed.

End ReadOnly.

Ltac solve_read_only :=
  unfold Result.getOrNull, Result.errOrNull, Result.getOrThrow,
    Result.dispatch, Result.getOrDefault, Result.Ok_getOrNull,
    Result.Ok_errOrNull, Result.Ok_getOrThrow, Result.Err_getOrNull,
    Result.Err_errOrNull, Result.Err_getOrThrow, Result.isOk, Result.isErr,
    Result.value;
  repeat first
    [ apply read_only_ret | apply read_only_throw | apply read_only_fields
    | apply read_only_if | apply read_only_class
    | apply read_only_bind; [| intro] ].

(** Whatever the receiver and the store, calling [isOk], [isErr], [value],
    [getOrDefault], [getOrNull], [errOrNull] or [getOrThrow] twice gives the
    same answer both times (the same value, or the same exception), calls
    nothing and leaves the store exactly as it was. *)
Theorem accessors_idempotent (this : loc) (d : jsval) :
  idempotent_read (Result.isOk this)
  /\ idempotent_read (Result.isErr this)
  /\ idempotent_read (Result.value this)
  /\ idempotent_read (Result.getOrDefault this d)
  /\ idempotent_read (Result.getOrNull this)
  /\ idempotent_read (Result.errOrNull this)
  /\ idempotent_read (Result.getOrThrow this).
Proof.
  repeat apply conj; apply read_only_idempotent; solve_read_only.
Qed.

(** ** [toJSON] builds a record at each call *)

(** Two calls of [toJSON] on the same [Result] return two distinct new
    records with the same content; the [Result] and every other object stay
    where they were. *)
Theorem toJSON_twice (s : store) (r : loc) (c : class) (p : jsval) :
  instance_of s r c p ->
  let record := ORecord p (VBool (is_ok_class c))
                  (VBool (negb (is_ok_class c))) in
  (a ← Result.toJSON r; b ← Result.toJSON r; mret (a, b)) s
  = Run [] (s ++ [record; record]) (Normal (length s, S (length s))).
Proof.
  intros H record. subst record.
  assert (Hj : forall s0, instance_of s0 r c p ->
            Result.toJSON r s0
            = Run [] (s0 ++ [ORecord p (VBool (is_ok_class c))
                               (VBool (negb (is_ok_class c)))])
                (Normal (length s0))).
  { intros s0 H0. destruct c; exec H0; reflexivity. }
  rewrite (bind_normal _ _ _ _ _ _ (Hj s H)).
  assert (H1 : instance_of
                 (s ++ [ORecord p (VBool (is_ok_class c))
                          (VBool (negb (is_ok_class c)))]) r c p).
  { unfold instance_of. rewrite lookup_app_l; [exact H|].
    eapply lookup_lt_Some; exact H. }
  rewrite (bind_normal _ _ _ _ _ _ (Hj _ H1)).
  cbn. rewrite length_app, <- app_assoc. cbn.
  now rewrite Nat.add_1_r.
Qed.

Lemma toJSON_twice_witness :
  let s := [OResult (constructed ClsOk (VNum 42))] in
  let record := ORecord (VNum 42) (VBool true) (VBool false) in
  instance_of s 0 ClsOk (VNum 42)
  /\ (a ← Result.toJSON 0; b ← Result.toJSON 0; mret (a, b)) s
     = Run [] (s ++ [record; record]) (Normal (1, 2)).
Proof.
  intros s record. split; [reflexivity|].
  apply (toJSON_twice s 0 ClsOk (VNum 42)). reflexivity.
Defined.

(** ** The variant flags *)

Lemma wf_step_new (s : store) (c : class) (p : jsval) :
  wf_step s (s ++ [OResult (constructed c p)]).
Proof. apply wf_store_snoc. intros i [= <-]. now destruct c. Qed.

Lemma wf_step_record (s : store) (v b b' : jsval) :
  wf_step s (s ++ [ORecord v b b']).
Proof. apply wf_store_snoc. intros i [=]. Qed.

Lemma wf_step_run_step (st : step) (s : store) :
  wf_step s (store_after (run_step st s)).
Proof.
  destruct st as [m t|v|v|r|r id h]; cbn [run_step].
  - apply wf_store_snoc. intros i [=].
  - apply (respects_factories wf_step wf_step_new v).
  - apply (respects_factories wf_step wf_step_new v).
  - apply (respects_accessors wf_step wf_step_record r VNull).
  - apply (respects_combinators wf_step wf_step_new r (pure_fn id h)
             (pure_fn id h)); now intros u s0.
Qed.

Lemma wf_store_run_steps (sts : list step) (s : store) :
  wf_store s -> wf_store (run_steps sts s).
Proof.
  revert s. induction sts as [|st sts IH]; intros s Hwf; [exact Hwf|].
  cbn. apply IH. now apply wf_step_run_step.
Qed.

(** In any store a client program builds from the empty one with the
    factories, [toJSON] and [map], every [Result] has exactly one of [isOk]
    and [isErr] true, and [isOk] is true exactly for an instance of the
    class Ok. *)
Theorem flags_exclusive (sts : list step) (r : loc) (i : instance) :
  let s := run_steps sts [] in
  s !! r = Some (OResult i) ->
  Result.isOk r s = Run [] s (Normal (is_ok_class (cls i)))
  /\ Result.isErr r s = Run [] s (Normal (negb (is_ok_class (cls i)))).
Proof.
  intros s Hr.
  assert (Hwf : wf_store s) by apply (wf_store_run_steps sts [] wf_store_nil).
  pose proof (wf_store_instance_of s r i Hwf Hr) as H.
  destruct (cls i); exec H; split; reflexivity.
Qed.

Lemma flags_exclusive_witness :
  let sts := [NewError "failed" "MyError"; CallErr (VRef 0); CallOk (VNum 2);
              CallMap 2 1
                (fun v => match v with VNum n => VNum (n * 2) | _ => v end)] in
  let s := run_steps sts [] in
  s !! 3 = Some (OResult (Instance ClsOk (VNum 4) true false))
  /\ s !! 1 = Some (OResult (Instance ClsErr (VRef 0) false true))
  /\ Result.isOk 3 s = Run [] s (Normal true)
  /\ Result.isErr 3 s = Run [] s (Normal false)
  /\ Result.isOk 1 s = Run [] s (Normal false)
  /\ Result.isErr 1 s = Run [] s (Normal true).
Proof.
  intros sts s.
  repeat apply conj; [reflexivity | reflexivity | | | |].
  1-2: apply (flags_exclusive sts 3 (Instance ClsOk (VNum 4) true false)
                eq_refl).
  all: apply (flags_exclusive sts 1 (Instance ClsErr (VRef 0) false true)
                eq_refl).
Defined.

Lemma wf_store_operations_witness :
  let s := [OResult (constructed ClsOk (VNum 42))] in
  wf_store s
  /\ (forall u s0, wf_store s0 ->
        wf_store (fst (body Scenario.plus_one u s0)))
  /\ wf_store (s ++ [OResult (constructed ClsOk (VNum 1))])
  /\ wf_store (s ++ [OResult (constructed ClsErr VNull)])
  /\ wf_store (s ++ [ORecord (VNum 42) (VBool true) (VBool false)])
  /\ wf_store (s ++ [OResult (constructed ClsOk (VNum 43))]).
Proof.
  intros s.
  assert (Hwf : wf_store s).
  { intros [|l] i Hl; [now injection Hl as <- | now destruct l]. }
  assert (Hf : forall u s0, wf_store s0 ->
                 wf_store (fst (body Scenario.plus_one u s0)))
    by (intros u s0 H; exact H).
  repeat apply conj; [exact Hwf | exact Hf | | | |].
  - apply (wf_store_operations s 0 (VNum 1) Scenario.plus_one Hwf Hf).
  - apply (wf_store_operations s 0 VNull Scenario.plus_one Hwf Hf).
  - apply (wf_store_operations s 0 VNull Scenario.plus_one Hwf Hf).
  - apply (wf_store_operations s 0 VNull Scenario.plus_one Hwf Hf).
Defined.

(** ** Rendering *)

(** An Ok holding another [Result] renders as ["Ok("], the rendering of
    that [Result], [")"]; when rendering the inner one raises, the outer
    one raises the same. *)
Theorem toString_nested (s : store) (r r2 : loc) (i2 : instance)
    (fuel : nat) :
  instance_of s r ClsOk (VRef r2) ->
  s !! r2 = Some (OResult i2) ->
  Result.toString (S fuel) r s
  = option_map (completion_map Ok_around) (Result.toString fuel r2 s).
Proof.
  intros H H2. unfold Result.toString. rewrite H, H2.
  unfold Result.toString_of at 1. cbn [cls constructed].
  unfold Result.Ok_toString. cbn [_value constructed].
  rewrite ToString_ref, H2.
  now destruct (Result.toString_of (Result.ToString fuel s) s i2)
    as [[x|x|msg]|].
Qed.

Lemma toString_nested_witness :
  let s := [OResult (constructed ClsOk (VNum 1));
            OResult (constructed ClsOk (VRef 0))] in
  instance_of s 1 ClsOk (VRef 0)
  /\ s !! 0 = Some (OResult (constructed ClsOk (VNum 1)))
  /\ Result.toString 1 1 s = Some (Normal (VStr "Ok(Ok(1))")).
Proof.
  intros s. repeat apply conj; [reflexivity | reflexivity |].
  apply (toString_nested s 1 0 (constructed ClsOk (VNum 1)) 0); reflexivity.
Defined.

(** The constraint [E extends ResultErr] is not checked when the code runs.
    On an Err built from undefined or null, [toString] raises the TypeError
    of reading [message] off it; on an Err built from any other primitive
    it returns ["Err(undefined)"]. *)
Theorem toString_Err_without_message (s : store) (r : loc) (p : jsval)
    (fuel : nat) :
  instance_of s r ClsErr p ->
  match p with
  | VUndefined | VNull =>
      exists msg, Result.toString fuel r s = Some (TypeError msg)
  | VBool _ | VNum _ | VStr _ | VSymbol _ =>
      Result.toString fuel r s = Some (Normal (VStr "Err(undefined)"))
  | VRef _ => True
  end.
Proof.
  intros H. unfold Result.toString. rewrite H.
  destruct p; cbn; trivial; try (now destruct fuel); eauto.
Qed.

Lemma toString_Err_without_message_witness :
  instance_of [OResult (constructed ClsErr VNull)] 0 ClsErr VNull
  /\ exists msg,
       Result.toString 0 0 [OResult (constructed ClsErr VNull)]
       = Some (TypeError msg).
Proof.
  split; [reflexivity|].
  apply (toString_Err_without_message [OResult (constructed ClsErr VNull)] 0
           VNull 0).
  reflexivity.
Defined.

(** ** Payloads are older than their [Result] *)


